(** * enigma-cache: a TTL cache over [sync.Map] and [time.AfterFunc]

    Shallow embedding of [golang/main.go].  The cache itself is the Go
    struct [MemoryCache] with its single field [storage]; the deferred
    deletions armed by [time.AfterFunc] live in the Go runtime, so the
    state threaded through the operations is a [World]: the cache, the
    runtime's pending timers and the runtime's monotonic clock.

    Calls take no time and run one after the other; two calls composed
    without a [Sleep] between them are "immediately" after one another.
    Time passes in [Sleep] alone.  The function of a timer runs in a
    goroutine of its own: when the program wakes from a sleep, the timers
    whose deadline lies before the wake-up have run; a timer whose deadline
    is the very instant of the wake-up races with the sleeper, and which of
    the two goes first is the scheduler's choice, a parameter of the model
    ([Scheduler]).  A sleep of no duration returns at once and lets no
    timer run. *)

From Stdlib Require Import ZArith Lia.
From stdpp Require Import gmap strings list fin_maps pretty.

Local Open Scope Z_scope.

(** ** [time.Duration]: a count of nanoseconds.

    Go stores it in an int64; the cache does no arithmetic on it and hands
    it to the runtime untouched, which adds it to its clock.  The clock is
    an unbounded [Z] here (the int64 clock saturates after about 292
    years). *)
Module time.
Definition Duration := Z.
Definition Nanosecond : Duration := 1.
Definition Microsecond : Duration := 1000 * Nanosecond.
Definition Millisecond : Duration := 1000 * Microsecond.
Definition Second : Duration := 1000 * Millisecond.
Definition Minute : Duration := 60 * Second.
End time.

(** ** Go's [any]: some type with the untyped [nil] in it. *)
Class Any (any : Type) := Nil : any.

(** The closure handed to [time.AfterFunc] is the same in [Set] and in
    [GetOrSet]: [func() { mc.storage.Delete(key) }].  It captures the key
    and nothing about the value, so a pending timer is its deadline and
    that key.  [AfterFunc] returns the [*Timer], which both callers drop:
    nothing can [Stop] a timer once armed. *)
Record Timer := mkTimer { when : Z; key : string }.

(** The scheduler's choice, for a timer whose deadline is the instant a
    sleeper wakes up: [true] when the timer's function runs before the
    sleeper goes on, [false] when the sleeper goes first. *)
Class Scheduler := callback_first : Timer → bool.

Section Cache.
Context `{Any any} `{Scheduler}.

(** [type MemoryCache struct { storage sync.Map }] *)
Record MemoryCache := mkMemoryCache { storage : gmap string any }.

Record World := mkWorld {
  mc : MemoryCache;
  timers : list Timer;
  clock : Z
}.

(** Code that reads and writes the world. *)
Definition Go (A : Type) : Type := World → A * World.

Global Instance Go_ret : MRet Go := λ A a w, (a, w).
Global Instance Go_bind : MBind Go :=
  λ A B f m w, let '(a, w') := m w in f a w'.

Definition with_storage (f : gmap string any → gmap string any) (w : World) : World :=
  {| mc := {| storage := f (storage (mc w)) |};
     timers := timers w;
     clock := clock w |}.

(** *** [sync.Map], as its documentation describes each method. *)

Definition Map_Store (k : string) (value : any) : Go unit :=
  λ w, (tt, with_storage (insert k value) w).

Definition Map_Load (k : string) : Go (any * bool) :=
  λ w, match storage (mc w) !! k with
       | Some v => ((v, true), w)
       | None => ((Nil, false), w)
       end.

Definition Map_LoadOrStore (k : string) (value : any) : Go (any * bool) :=
  λ w, match storage (mc w) !! k with
       | Some v => ((v, true), w)
       | None => ((value, false), with_storage (insert k value) w)
       end.

Definition Map_LoadAndDelete (k : string) : Go (any * bool) :=
  λ w, match storage (mc w) !! k with
       | Some v => ((v, true), with_storage (delete k) w)
       | None => ((Nil, false), w)
       end.

Definition Map_Delete (k : string) : Go unit :=
  λ w, (tt, with_storage (delete k) w).

Definition Map_Clear : Go unit :=
  λ w, (tt, with_storage (λ _, ∅) w).

(** *** The runtime: timers and the clock. *)

(** [time.AfterFunc(d, func() { mc.storage.Delete(key) })]: one more
    pending timer, due [d] from now; a duration that is not positive is
    due at once. *)
Definition AfterFunc (d : time.Duration) (k : string) : Go unit :=
  λ w, (tt, {| mc := mc w;
               timers := timers w ++ [mkTimer (clock w + Z.max 0 d) k];
               clock := clock w |}).

(** The function of [tm] has run when a sleeper wakes up at [t]: its
    deadline is before [t], or it is [t] and the scheduler let it go
    first. *)
Definition ran (t : Z) (tm : Timer) : Prop :=
  when tm < t ∨ (when tm = t ∧ callback_first tm = true).

Global Instance ran_dec t tm : Decision (ran t tm).
Proof. unfold ran. apply _. Defined.

(** Running a timer's function: [mc.storage.Delete(key)]. *)
Definition fire (tm : Timer) : Go unit :=
  Map_Delete (key tm).

Fixpoint run_timers (l : list Timer) : Go unit :=
  match l with
  | [] => mret tt
  | tm :: l' => fire tm ;; run_timers l'
  end.

(** What a sleeper finds when it wakes up: the timers that have run are
    pending no more and their functions have run, in the order of arming;
    the others are pending still. *)
Definition wake : Go unit :=
  λ w, run_timers (filter (ran (clock w)) (timers w))
         {| mc := mc w;
            timers := filter (λ tm, ¬ ran (clock w) tm) (timers w);
            clock := clock w |}.

Definition tick (d : time.Duration) : Go unit :=
  λ w, (tt, {| mc := mc w; timers := timers w; clock := clock w + Z.max 0 d |}).

(** [time.Sleep(d)]: a duration that is not positive returns at once;
    otherwise the clock moves on by [d] and the sleeper wakes up. *)
Definition Sleep (d : time.Duration) : Go unit :=
  if decide (d ≤ 0) then mret tt else tick d ;; wake.

(** *** The cache.

    A method carries its receiver's type in its name: [MemoryCache_Set] is
    the method [Set] of a [MemoryCache], and so on. *)

Definition NewMemoryCache : MemoryCache := {| storage := ∅ |}.

Definition MemoryCache_Set (k : string) (value : any) (ttl : time.Duration) : Go unit :=
  Map_Store k value ;;
  AfterFunc ttl k.

Definition MemoryCache_GetOrSet (k : string) (value : any) (ttl : time.Duration)
  : Go (any * bool) :=
  '(val, loaded) ← Map_LoadOrStore k value;
  (if negb loaded then AfterFunc ttl k else mret tt) ;;
  mret (val, loaded).

Definition MemoryCache_Get (k : string) : Go (any * bool) :=
  Map_Load k.

Definition MemoryCache_Expire (k : string) : Go (any * bool) :=
  Map_LoadAndDelete k.

Definition MemoryCache_Refresh (k : string) (ttl : time.Duration) : Go bool :=
  '(value, ok) ← MemoryCache_Get k;
  if ok : bool then MemoryCache_Set k value ttl ;; mret true
  else mret false.

Definition MemoryCache_ExpireAll : Go unit :=
  Map_Clear.

(** A fresh process: a new cache, no timer, the clock at its origin. *)
Definition boot : World :=
  {| mc := NewMemoryCache; timers := []; clock := 0 |}.

(** *** Calls as data, to speak about every operation and about runs. *)

Inductive Op :=
| OpSet (k : string) (value : any) (ttl : time.Duration)
| OpGetOrSet (k : string) (value : any) (ttl : time.Duration)
| OpGet (k : string)
| OpExpire (k : string)
| OpRefresh (k : string) (ttl : time.Duration)
| OpExpireAll.

(** What a call hands back, by the shape of the method's result list. *)
Inductive Result :=
| RVoid
| RValue (value : any) (flag : bool)
| RBool (refreshed : bool).

Definition exec (op : Op) : Go Result :=
  match op with
  | OpSet k v ttl => MemoryCache_Set k v ttl ;; mret RVoid
  | OpGetOrSet k v ttl => '(a, l) ← MemoryCache_GetOrSet k v ttl; mret (RValue a l)
  | OpGet k => '(a, ok) ← MemoryCache_Get k; mret (RValue a ok)
  | OpExpire k => '(a, l) ← MemoryCache_Expire k; mret (RValue a l)
  | OpRefresh k ttl => r ← MemoryCache_Refresh k ttl; mret (RBool r)
  | OpExpireAll => MemoryCache_ExpireAll ;; mret RVoid
  end.

(** The key a per-key operation is called on. *)
Definition op_key (op : Op) : option string :=
  match op with
  | OpSet k _ _ | OpGetOrSet k _ _ | OpGet k | OpExpire k | OpRefresh k _ => Some k
  | OpExpireAll => None
  end.

(** The calls that can put a value under [k] where there was none. *)
Definition sets_key (k : string) (op : Op) : bool :=
  match op with
  | OpSet k' _ _ | OpGetOrSet k' _ _ => bool_decide (k' = k)
  | _ => false
  end.

(** A step of a run: a call on the cache, or time passing. *)
Inductive Step :=
| Call (op : Op)
| Wait (d : time.Duration).

Definition step (s : Step) : Go unit :=
  match s with
  | Call op => exec op ;; mret tt
  | Wait d => Sleep d
  end.

Fixpoint run (p : list Step) : Go unit :=
  match p with
  | [] => mret tt
  | s :: p' => step s ;; run p'
  end.

(** A step that can put a value under [k] where there was none. *)
Definition writes (k : string) (s : Step) : Prop :=
  match s with
  | Call op => sets_key k op = true
  | Wait _ => False
  end.


(** A step that stores [v] under [k]: a [Set] or a [GetOrSet] of them. *)
Definition written (k : string) (v : any) (s : Step) : Prop :=
  match s with
  | Call (OpSet k' v' _) | Call (OpGetOrSet k' v' _) => k' = k ∧ v' = v
  | _ => False
  end.

(** One [Set] of [k] after the other, for each value and ttl of the list. *)
Definition sets (k : string) (l : list (any * time.Duration)) : list Step :=
  (λ x, Call (OpSet k x.1 x.2)) <$> l.

(** Every key in the store has a timer pending for it. *)
Definition covered (w : World) : Prop :=
  ∀ k, is_Some (storage (mc w) !! k) → ∃ tm, tm ∈ timers w ∧ key tm = k.

(** The timers pending for a key. *)
Definition pending (k : string) (w : World) : list Timer :=
  filter (λ tm, key tm = k) (timers w).

End Cache.

Arguments MemoryCache : clear implicits.
Arguments World : clear implicits.
Arguments Go : clear implicits.
Arguments Op : clear implicits.
Arguments Result : clear implicits.
Arguments Step : clear implicits.

(** A scheduler for concrete runs: at a tie the sleeper goes first. *)
Definition sleeper_first : Scheduler := λ _, false.

(** ** Values for concrete runs: what [main] stores. *)
Inductive GoValue :=
| VNil
| VInt (n : Z)
| VString (s : string).

Global Instance GoValue_any : Any GoValue := VNil.

(** Write "A" for 200ms, overwrite it 50ms later for another 200ms, and
    read it back 220ms after the first write. *)
Definition overwrite_scenario `{Scheduler} : Go GoValue (GoValue * bool) :=
  MemoryCache_Set "A" (VInt 1) (200 * time.Millisecond) ;;
  Sleep (50 * time.Millisecond) ;;
  MemoryCache_Set "A" (VInt 2) (200 * time.Millisecond) ;;
  Sleep (170 * time.Millisecond) ;;
  MemoryCache_Get "A".

(** ** [main]: the demonstration run *)

(** [time.Now()] reads the clock, [t.Add(d)] moves a time by a duration,
    [time.Until(t)] is the duration from now to [t].  A call takes no time
    here, so [time.Until(time.Now().Add(d))] is [d]; on a machine it is a
    little less. *)
Definition Now `{Any any} : Go any Z := λ w, (clock w, w).

Definition Add (t : Z) (d : time.Duration) : Z := t + d.

Definition Until `{Any any} (t : Z) : Go any time.Duration :=
  now ← Now; mret (t - now).

(** [cache := NewMemoryCache()] *)
Definition new_cache `{Any any} : Go any unit :=
  λ w, (tt, {| mc := NewMemoryCache; timers := timers w; clock := clock w |}).

(** [fmt.Println]: the operands in their default format, a space between
    any two, one line of output. *)
Definition format (v : GoValue) : string :=
  match v with
  | VNil => "<nil>"
  | VInt n => pretty n
  | VString s => s
  end.

Fixpoint join (sep : string) (l : list string) : string :=
  match l with
  | [] => ""
  | [x] => x
  | x :: l' => x +:+ sep +:+ join sep l'
  end.

Definition Println (args : list GoValue) (stdout : list string) : list string :=
  stdout ++ [join " " (format <$> args)].

(** [func main()]; what it hands back is what it printed, line by line. *)
Definition main `{Scheduler} : Go GoValue (list string) :=
  new_cache ;;
  let stdout := Println [VString "Setting up cache..."] [] in
  t ← Now; ttl ← Until (Add t (5 * time.Minute));
  MemoryCache_Set "UltimateAnswer" (VInt 42) ttl ;;
  t ← Now; ttl ← Until (Add t (10 * time.Second));
  MemoryCache_Set "Spock" (VString "Live long and prosper.") ttl ;;
  let stdout := Println [VString "Searching for answers..."] stdout in
  '(value, ok) ← MemoryCache_Get "UltimateAnswer";
  let stdout :=
    if negb ok then Println [VString "Failed to answer the ultimate question."] stdout
    else Println [VString "The answer is, of course, "; value; VString "."] stdout in
  MemoryCache_Expire "UltimateAnswer" ;;
  let stdout := Println [VString "Searching for Spock..."] stdout in
  Sleep (15 * time.Second) ;;
  t ← Now; ttl ← Until (Add t (5 * time.Minute));
  '(value, found) ← MemoryCache_GetOrSet "Spock" (VString "Live long and prosper.") ttl;
  mret (if found : bool then Println [VString "Found Spock, that was unexpected!"] stdout
        else Println [value]
               (Println [VString "Spock not found, releasing Genesis device."] stdout)).

(** ** Properties *)

Section Properties.
Context `{Any any} `{Scheduler}.
Implicit Types (k : string) (v value : any) (ttl d : time.Duration).
Implicit Types (w : World any) (m : gmap string any) (tm : Timer).

(** Unfolding the cache's methods down to the map and the timer list. *)
Ltac go_unfold :=
  unfold exec, MemoryCache_Refresh, MemoryCache_Set, MemoryCache_GetOrSet,
    MemoryCache_Get, MemoryCache_Expire, MemoryCache_ExpireAll,
    Map_Store, Map_Load, Map_LoadOrStore, Map_LoadAndDelete, Map_Delete,
    Map_Clear, AfterFunc, with_storage, mbind, mret, Go_bind, Go_ret in *;
  simpl in *.

(** *** Timers that run *)

Lemma run_timers_cons tm (l : list Timer) w :
  (run_timers (tm :: l) w).2 = (run_timers l (fire tm w).2).2.
Proof. reflexivity. Qed.

Lemma fire_storage tm w :
  storage (mc (fire tm w).2) = delete (key tm) (storage (mc w)).
Proof. reflexivity. Qed.

(** Running timers touches neither the pending timers nor the clock. *)
Lemma run_timers_frame (l : list Timer) w :
  timers (run_timers l w).2 = timers w ∧ clock (run_timers l w).2 = clock w.
Proof.
  revert w. induction l as [|tm l IH]; intros w; [done|].
  rewrite run_timers_cons. by destruct (IH (fire tm w).2) as [-> ->].
Qed.

Lemma run_timers_absent (l : list Timer) w k :
  storage (mc w) !! k = None → storage (mc (run_timers l w).2) !! k = None.
Proof.
  revert w. induction l as [|tm l IH]; intros w Hk; [done|].
  rewrite run_timers_cons. apply IH. rewrite fire_storage.
  destruct (decide (key tm = k)) as [->|Hne].
  - apply lookup_delete_eq.
  - by rewrite lookup_delete_ne.
Qed.

Lemma run_timers_hit (l : list Timer) w tm :
  tm ∈ l → storage (mc (run_timers l w).2) !! key tm = None.
Proof.
  revert w. induction l as [|a l IH]; intros w Hin.
  - by apply not_elem_of_nil in Hin.
  - rewrite run_timers_cons. apply elem_of_cons in Hin as [<-|Hin].
    + apply run_timers_absent. rewrite fire_storage. apply lookup_delete_eq.
    + by apply IH.
Qed.

Lemma run_timers_other (l : list Timer) w k :
  Forall (λ tm, key tm ≠ k) l →
  storage (mc (run_timers l w).2) !! k = storage (mc w) !! k.
Proof.
  revert w. induction l as [|a l IH]; intros w Hall; [done|].
  inversion Hall as [|? ? Ha Hl]; subst.
  rewrite run_timers_cons, IH by done.
  rewrite fire_storage. by rewrite lookup_delete_ne.
Qed.

(** Timers only delete: what is there after they ran was there before. *)
Lemma run_timers_Some (l : list Timer) w k v :
  storage (mc (run_timers l w).2) !! k = Some v → storage (mc w) !! k = Some v.
Proof.
  revert w. induction l as [|tm l IH]; intros w Hk; [done|].
  rewrite run_timers_cons in Hk. apply IH in Hk. rewrite fire_storage in Hk.
  by apply lookup_delete_Some in Hk as [_ Hk].
Qed.

(** *** What a step does to the clock, the timers and the store *)

Lemma exec_clock (op : Op any) w : clock (exec op w).2 = clock w.
Proof.
  destruct op as [k v ttl|k v ttl|k|k|k ttl|]; go_unfold;
    try (destruct (storage (mc w) !! k)); done.
Qed.

Lemma exec_timers (op : Op any) w : ∃ l, timers (exec op w).2 = timers w ++ l.
Proof.
  destruct op as [k v ttl|k v ttl|k|k|k ttl|]; go_unfold;
    try (destruct (storage (mc w) !! k)); simpl;
    first [by eexists [_] | by exists []; rewrite app_nil_r].
Qed.


Lemma ran_before t tm : when tm < t → ran t tm.
Proof. intros Hlt. by left. Qed.

Lemma not_ran_after t tm : t < when tm → ¬ ran t tm.
Proof. intros Hlt [Hr|[Hr _]]; lia. Qed.

(** A sleep of no duration changes nothing. *)
Lemma Sleep_nonpos d w : d ≤ 0 → Sleep d w = (tt, w).
Proof. intros Hd. unfold Sleep. by rewrite decide_True. Qed.

(** A sleep: the timers that have run by its end ran on the world it
    found. *)
Lemma Sleep_pos d w :
  0 < d →
  (Sleep d w).2
  = (run_timers (filter (ran (clock w + d)) (timers w))
       {| mc := mc w;
          timers := filter (λ tm, ¬ ran (clock w + d) tm) (timers w);
          clock := clock w + d |}).2.
Proof.
  intros Hd. unfold Sleep. rewrite decide_False by lia.
  unfold mbind, Go_bind, tick, wake. cbn [mc timers clock].
  by rewrite Z.max_r by lia.
Qed.

Lemma Sleep_clock d w : clock (Sleep d w).2 = clock w + Z.max 0 d.
Proof.
  destruct (decide (d ≤ 0)) as [Hd|Hd].
  - rewrite Sleep_nonpos by done. simpl. lia.
  - rewrite Sleep_pos by lia. rewrite (proj2 (run_timers_frame _ _)). simpl. lia.
Qed.

Lemma Sleep_timers d w :
  timers (Sleep d w).2
  = if decide (d ≤ 0) then timers w
    else filter (λ tm, ¬ ran (clock w + d) tm) (timers w).
Proof.
  case_decide as Hd.
  - by rewrite Sleep_nonpos.
  - rewrite Sleep_pos by lia. by rewrite (proj1 (run_timers_frame _ _)).
Qed.

Lemma Sleep_absent d w k :
  storage (mc w) !! k = None → storage (mc (Sleep d w).2) !! k = None.
Proof.
  intros Hk. destruct (decide (d ≤ 0)) as [Hd|Hd].
  - by rewrite Sleep_nonpos.
  - rewrite Sleep_pos by lia. by apply run_timers_absent.
Qed.

(** A sleep stores nothing. *)
Lemma Sleep_Some d w k v :
  storage (mc (Sleep d w).2) !! k = Some v → storage (mc w) !! k = Some v.
Proof.
  destruct (decide (d ≤ 0)) as [Hd|Hd].
  - by rewrite Sleep_nonpos.
  - rewrite Sleep_pos by lia. intros Hk. by apply run_timers_Some in Hk.
Qed.

Lemma step_Call (op : Op any) w : (step (Call op) w).2 = (exec op w).2.
Proof. simpl. unfold mbind, Go_bind, mret, Go_ret. by destruct (exec op w). Qed.

Lemma run_cons (s : Step any) (p : list (Step any)) w :
  (run (s :: p) w).2 = (run p (step s w).2).2.
Proof. simpl. unfold mbind, Go_bind. by destruct (step s w). Qed.

(** The function of a pending timer that has run by the end of a sleep has
    deleted its key, whatever was stored there, and the timer is pending
    no more. *)
Lemma Sleep_fires d w tm :
  0 < d → tm ∈ timers w → ran (clock w + d) tm →
  storage (mc (Sleep d w).2) !! key tm = None ∧ tm ∉ timers (Sleep d w).2.
Proof.
  intros Hd Hin Hran. split.
  - rewrite Sleep_pos by done. apply run_timers_hit. by apply list_elem_of_filter.
  - rewrite Sleep_timers, decide_False by lia.
    rewrite list_elem_of_filter. intros [Hnr _]. by apply Hnr.
Qed.

(** A timer that has not run by the end of a sleep is pending still. *)
Lemma Sleep_keeps d w tm :
  tm ∈ timers w → d ≤ 0 ∨ ¬ ran (clock w + d) tm →
  tm ∈ timers (Sleep d w).2.
Proof.
  intros Hin Hnr. rewrite Sleep_timers. case_decide as Hd; [done|].
  apply list_elem_of_filter. split; [|done]. by destruct Hnr.
Qed.

(** A timer pending after a sleep was pending before it. *)
Lemma Sleep_pending d w tm : tm ∈ timers (Sleep d w).2 → tm ∈ timers w.
Proof.
  rewrite Sleep_timers. case_decide; [done|].
  by intros [_ Hin]%list_elem_of_filter.
Qed.

(** Through a sleep a pending timer stays pending, or it runs. *)
Lemma Sleep_cases d w tm :
  tm ∈ timers w →
  tm ∈ timers (Sleep d w).2 ∨
  (storage (mc (Sleep d w).2) !! key tm = None ∧ tm ∉ timers (Sleep d w).2).
Proof.
  intros Hin. destruct (decide (d ≤ 0)) as [Hd|Hd].
  - left. apply Sleep_keeps; [done|by left].
  - destruct (decide (ran (clock w + d) tm)) as [Hr|Hnr].
    + right. apply Sleep_fires; [lia|done..].
    + left. apply Sleep_keeps; [done|by right].
Qed.

(** A sleep changes the value under [k] only by a timer of [k] that runs. *)
Lemma Sleep_untouched d w k :
  d ≤ 0 ∨ Forall (λ tm, key tm = k → ¬ ran (clock w + d) tm) (timers w) →
  storage (mc (Sleep d w).2) !! k = storage (mc w) !! k.
Proof.
  intros Hall. destruct (decide (d ≤ 0)) as [Hd|Hd]; [by rewrite Sleep_nonpos|].
  destruct Hall as [?|Hall]; [lia|].
  rewrite Sleep_pos by lia. rewrite run_timers_other; [done|].
  apply Forall_forall. intros tm [Hr Hin]%list_elem_of_filter Hk.
  rewrite Forall_forall in Hall. by apply (Hall tm Hin Hk).
Qed.


(** A key that no step of the run writes stays absent. *)
Lemma step_keeps_absent (s : Step any) w k :
  ¬ writes k s → storage (mc w) !! k = None →
  storage (mc (step s w).2) !! k = None.
Proof.
  intros Hs Hk. destruct s as [op|d]; [simpl in *|by apply Sleep_absent].
  destruct op as [j v ttl|j v ttl|j|j|j ttl|]; simpl in Hs;
      rewrite ?bool_decide_eq_true in Hs; go_unfold;
      try (destruct (storage (mc w) !! j) eqn:Hj; simpl);
      rewrite ?lookup_empty; try done;
      destruct (decide (j = k)) as [->|Hne]; try congruence;
      by rewrite ?lookup_insert_ne, ?lookup_delete_eq, ?lookup_delete_ne.
Qed.

Lemma run_keeps_absent (p : list (Step any)) w k :
  Forall (λ s, ¬ writes k s) p → storage (mc w) !! k = None →
  storage (mc (run p w).2) !! k = None.
Proof.
  revert w. induction p as [|s p IH]; intros w Hall Hk; [done|].
  inversion Hall as [|? ? Hs Hp]; subst.
  rewrite run_cons. apply IH; [done|]. by apply step_keeps_absent.
Qed.

(** Short of a write, a pending timer of [k] is either still pending or
    [k] is absent. *)
Lemma step_pending_or_absent (s : Step any) w tm :
  ¬ writes (key tm) s →
  tm ∈ timers w ∨ storage (mc w) !! key tm = None →
  tm ∈ timers (step s w).2 ∨ storage (mc (step s w).2) !! key tm = None.
Proof.
  intros Hs [Hin|Hk]; [|right; by apply step_keeps_absent].
  destruct s as [op|d].
  - left. rewrite step_Call. destruct (exec_timers op w) as [l Hl].
    rewrite Hl. apply elem_of_app. by left.
  - change (step (Wait d) w) with (Sleep d w).
    destruct (Sleep_cases d w tm Hin) as [Hkept|[Hgone _]]; [by left|by right].
Qed.


Lemma run_pending_or_absent (p : list (Step any)) w tm :
  Forall (λ s, ¬ writes (key tm) s) p →
  tm ∈ timers w ∨ storage (mc w) !! key tm = None →
  tm ∈ timers (run p w).2 ∨ storage (mc (run p w).2) !! key tm = None.
Proof.
  revert w. induction p as [|s p IH]; intros w Hall Hw; [done|].
  inversion Hall as [|? ? Hs Hp]; subst.
  rewrite run_cons. apply IH; [done|]. by apply step_pending_or_absent.
Qed.

(** *** Set and Get *)

(** C1. For every key [k], value [v] and [ttl], in every state of the
    cache, [Set(k, v, ttl)] followed at once by [Get(k)] returns
    [(v, true)]; the read leaves the world as [Set] made it. *)
Theorem Set_then_Get k v ttl w :
  (MemoryCache_Set k v ttl ;; MemoryCache_Get k) w
  = ((v, true), (MemoryCache_Set k v ttl w).2).
Proof.
  go_unfold. by rewrite lookup_insert_eq.
Qed.

(** C7. After [ExpireAll()] the cache is empty: [Get(k)] returns
    [(nil, false)] for every key, whatever was stored before. *)
Theorem ExpireAll_then_Get k w :
  storage (mc (MemoryCache_ExpireAll w).2) = ∅ ∧
  ((MemoryCache_ExpireAll ;; MemoryCache_Get k) w).1 = (Nil, false).
Proof.
  go_unfold. split; [done|]. by rewrite lookup_empty.
Qed.

(** *** GetOrSet *)

(** C4. On an absent key [GetOrSet(k, v1, ttl)] stores [v1], arms one
    expiration action and returns [(v1, false)]; a [GetOrSet(k, v2, ttl')]
    right after it returns [(v1, true)] and changes nothing: the stored
    value is still [v1] and no timer is added. *)
Theorem GetOrSet_twice k v1 v2 ttl ttl' w :
  storage (mc w) !! k = None →
  let w1 := (MemoryCache_GetOrSet k v1 ttl w).2 in
  (MemoryCache_GetOrSet k v1 ttl w).1 = (v1, false) ∧
  storage (mc w1) = <[k := v1]> (storage (mc w)) ∧
  timers w1 = timers w ++ [mkTimer (clock w + Z.max 0 ttl) k] ∧
  MemoryCache_GetOrSet k v2 ttl' w1 = ((v1, true), w1) ∧
  storage (mc w1) !! k = Some v1.
Proof.
  intros Hk. go_unfold. rewrite Hk. simpl.
  rewrite lookup_insert_eq. simpl. by destruct w as [[?] ? ?].
Qed.

(** *** Expire *)

(** C5. [Expire(k)] on a present key, whatever timers are pending for it,
    returns [(currentValue, true)] and removes the key, so that a [Get(k)]
    after it returns [(nil, false)]; on an absent key it returns
    [(nil, false)] and leaves the world as it was. *)
Theorem Expire_spec k w :
  (∀ v, storage (mc w) !! k = Some v →
     let w' := (MemoryCache_Expire k w).2 in
     (MemoryCache_Expire k w).1 = (v, true) ∧
     storage (mc w') = delete k (storage (mc w)) ∧
     (MemoryCache_Get k w').1 = (Nil, false)) ∧
  (storage (mc w) !! k = None →
     MemoryCache_Expire k w = ((Nil, false), w)).
Proof.
  split.
  - intros v Hk. go_unfold. rewrite Hk. simpl.
    by rewrite lookup_delete_eq.
  - intros Hk. go_unfold. by rewrite Hk.
Qed.

(** *** Refresh *)

(** C6. [Refresh(k, ttl)] on an absent key returns [false] and leaves the
    world as it was: same store, no timer armed.  On a present key it
    returns [true], and what it does to the world is what
    [Set(k, currentValue, ttl)] does: the value stays and one new timer is
    armed for [ttl]. *)
Theorem Refresh_spec k ttl w :
  (storage (mc w) !! k = None →
     MemoryCache_Refresh k ttl w = (false, w)) ∧
  (∀ v, storage (mc w) !! k = Some v →
     let w' := (MemoryCache_Refresh k ttl w).2 in
     MemoryCache_Refresh k ttl w = (true, (MemoryCache_Set k v ttl w).2) ∧
     storage (mc w') = storage (mc w) ∧
     timers w' = timers w ++ [mkTimer (clock w + Z.max 0 ttl) k]).
Proof.
  split.
  - intros Hk. go_unfold. by rewrite Hk.
  - intros v Hk. go_unfold. rewrite Hk. simpl.
    split_and!; [done| |done]. by apply insert_id.
Qed.

(** *** Other keys *)

(** C10. A call of [Set], [Get], [GetOrSet], [Expire] or [Refresh] on a
    key [k] leaves the value under every other key [k'] as it was, and the
    timers pending for [k'] too.  [ExpireAll] is the operation that
    reaches several keys: it can remove two at once. *)
Theorem per_key_frame :
  (∀ (op : Op any) k k' w,
     op_key op = Some k → k' ≠ k →
     storage (mc (exec op w).2) !! k' = storage (mc w) !! k' ∧
     pending k' (exec op w).2 = pending k' w) ∧
  (∃ w k1 k2,
     k1 ≠ k2 ∧
     is_Some (storage (mc w) !! k1) ∧ is_Some (storage (mc w) !! k2) ∧
     storage (mc (exec OpExpireAll w).2) !! k1 = None ∧
     storage (mc (exec OpExpireAll w).2) !! k2 = None).
Proof.
  split.
  - intros op k k' w Hop Hne.
    assert (Hnew : ∀ t, filter (λ tm, key tm = k') [mkTimer t k] = []).
    { intros t. rewrite filter_cons_False; [done|]. simpl. congruence. }
    destruct op as [j v ttl|j v ttl|j|j|j ttl|]; simpl in Hop; [..|done];
      injection Hop as ->; go_unfold;
      try (destruct (storage (mc w) !! k) as [v0|] eqn:Hk; simpl);
      rewrite ?lookup_insert_ne, ?lookup_delete_ne by done;
      unfold pending; simpl; rewrite ?filter_app, ?Hnew, ?app_nil_r; done.
  - exists {| mc := {| storage := <["a" := Nil]> (<["b" := Nil]> ∅) |};
              timers := []; clock := 0 |}, "a"%string, "b"%string.
    go_unfold. split_and!; done.
Qed.

(** *** Get *)

(** C8. [Get(k)] is a pure read: the world after it is the world before
    it, store and pending timers alike.  On a key that no call of the run
    so far has set it returns [(nil, false)], and so it does on a key
    whose expiration has come: set, not written again, and the program
    woken from a sleep after the deadline. *)
Theorem Get_pure_read :
  (∀ k w, (MemoryCache_Get k w).2 = w) ∧
  (∀ k (p : list (Step any)),
     Forall (λ s, ¬ writes k s) p →
     (MemoryCache_Get k (run p boot).2).1 = (Nil, false)) ∧
  (∀ k v ttl d w (p : list (Step any)),
     Forall (λ s, ¬ writes k s) p →
     let w2 := (run p (MemoryCache_Set k v ttl w).2).2 in
     0 < d → clock w + Z.max 0 ttl < clock w2 + d →
     (MemoryCache_Get k (Sleep d w2).2).1 = (Nil, false)).
Proof.
  split_and!.
  - intros k w. go_unfold. by destruct (storage (mc w) !! k).
  - intros k p Hp.
    pose proof (run_keeps_absent p boot k Hp (lookup_empty k)) as Hk.
    go_unfold. by rewrite Hk.
  - intros k v ttl d w p Hp w2 Hd Hpast.
    set (T := mkTimer (clock w + Z.max 0 ttl) k).
    assert (Hfate : T ∈ timers w2 ∨ storage (mc w2) !! key T = None).
    { apply run_pending_or_absent; [done|]. left.
      go_unfold. apply elem_of_app. right. by apply list_elem_of_singleton. }
    assert (Hk : storage (mc (Sleep d w2).2) !! k = None).
    { destruct Hfate as [Hin|Habs].
      - by apply (Sleep_fires d w2 T Hd Hin), ran_before.
      - by apply Sleep_absent. }
    unfold MemoryCache_Get, Map_Load. by rewrite Hk.
Qed.

(** *** Expiration actions *)


(** X11. With no older timer pending for the key, a write with a positive
    [ttl] is there to be read all through it: after any sleep shorter than
    the ttl, [Get] returns the value written. *)
Lemma Set_lives_until_ttl k v ttl d w :
  Forall (λ tm, key tm ≠ k) (timers w) → 0 < ttl → d < ttl →
  (MemoryCache_Get k (Sleep d (MemoryCache_Set k v ttl w).2).2).1 = (v, true).
Proof.
  intros Hold Httl Hd.
  set (w1 := (MemoryCache_Set k v ttl w).2).
  assert (Hk : storage (mc (Sleep d w1).2) !! k = Some v).
  { rewrite Sleep_untouched.
    - unfold w1. go_unfold. apply lookup_insert_eq.
    - right. unfold w1. go_unfold. apply Forall_app. split.
      + eapply Forall_impl; [exact Hold|]. intros tm Hne Hkey. by destruct Hne.
      + apply Forall_singleton. intros _. apply not_ran_after. simpl. lia. }
  unfold MemoryCache_Get, Map_Load. by rewrite Hk.
Qed.

(** The deadline of an earlier write outlives a later one: written, written
    again [d1] later with any [ttl2], the key is gone when the program wakes
    after the first [ttl1] is over, however much of [ttl2] is left. *)
Lemma stale_timer_deletes_overwrite k v1 v2 ttl1 ttl2 d1 d2 w :
  0 ≤ d1 < ttl1 → 0 < d2 → ttl1 < d1 + d2 →
  (MemoryCache_Get k
     (run [Call (OpSet k v1 ttl1); Wait d1; Call (OpSet k v2 ttl2); Wait d2] w).2).1
  = (Nil, false).
Proof.
  intros Hd1 Hd2 Hpast.
  set (T := mkTimer (clock w + Z.max 0 ttl1) k).
  rewrite (run_cons (Call _)), step_Call. set (w1 := (exec _ w).2).
  rewrite (run_cons (Wait d1)). change (step (Wait d1) w1) with (Sleep d1 w1).
  set (w2 := (Sleep d1 w1).2).
  rewrite (run_cons (Call _)), step_Call. set (w3 := (exec _ w2).2).
  rewrite (run_cons (Wait d2)).
  change (run [] (step (Wait d2) w3).2).2 with (Sleep d2 w3).2.
  assert (Hc1 : clock w1 = clock w) by apply exec_clock.
  assert (Hc2 : clock w2 = clock w + Z.max 0 d1).
  { unfold w2. by rewrite Sleep_clock, Hc1. }
  assert (Hc3 : clock w3 = clock w2) by apply exec_clock.
  assert (Hin1 : T ∈ timers w1).
  { unfold w1. go_unfold. apply elem_of_app. right. by apply list_elem_of_singleton. }
  assert (Hin2 : T ∈ timers w2).
  { apply Sleep_keeps; [done|]. right. apply not_ran_after. rewrite Hc1. simpl. lia. }
  assert (Hin3 : T ∈ timers w3).
  { unfold w3. destruct (exec_timers (OpSet k v2 ttl2) w2) as [l ->].
    apply elem_of_app. by left. }
  destruct (Sleep_fires d2 w3 T Hd2 Hin3) as [Hk _].
  { apply ran_before. rewrite Hc3, Hc2. simpl. lia. }
  change (key T) with k in Hk.
  unfold MemoryCache_Get, Map_Load. by rewrite Hk.
Qed.

(** *** Sleeping *)

Lemma Get_lookup k w :
  (MemoryCache_Get k w).1
  = match storage (mc w) !! k with Some v => (v, true) | None => (Nil, false) end.
Proof. unfold MemoryCache_Get, Map_Load. by destruct (storage (mc w) !! k). Qed.

Lemma Set_world k v ttl w :
  storage (mc (MemoryCache_Set k v ttl w).2) = <[k := v]> (storage (mc w)) ∧
  timers (MemoryCache_Set k v ttl w).2
  = timers w ++ [mkTimer (clock w + Z.max 0 ttl) k] ∧
  clock (MemoryCache_Set k v ttl w).2 = clock w.
Proof. done. Qed.

(** X1. A write, a sleep, a read.  After [Set(k, v, ttl)] in any state of
    the cache and a sleep of a positive duration, [Get(k)] returns
    [(nil, false)] when the function of some timer of [k] has run by the
    time the program wakes, be it a timer armed by an earlier call or the
    one this [Set] armed, and [(v, true)] otherwise. *)
Theorem Set_Sleep_Get k v ttl d w :
  0 < d →
  (MemoryCache_Get k (Sleep d (MemoryCache_Set k v ttl w).2).2).1
  = if decide (Exists (λ tm, key tm = k ∧ ran (clock w + d) tm)
                 (timers w ++ [mkTimer (clock w + Z.max 0 ttl) k]))
    then (Nil, false) else (v, true).
Proof.
  intros Hd. destruct (Set_world k v ttl w) as (Hs & Ht & Hc).
  rewrite Get_lookup, <-Ht, <-Hc. case_decide as Hex.
  - apply Exists_exists in Hex as (tm & Hin & <- & Hran).
    destruct (Sleep_fires d _ tm Hd Hin Hran) as [-> _]. done.
  - rewrite Sleep_untouched.
    + by rewrite Hs, lookup_insert_eq.
    + right. apply Forall_forall. intros tm Hin Hkey Hran.
      destruct Hex. apply Exists_exists. by exists tm.
Qed.

(** *** Writing a key again and again *)

(** X4. Every [Set] arms a timer of its own: after one [Set] of [k] for
    each element of a list, with no sleep between them, the timers pending
    before are all there, followed by one timer per [Set], each due its own
    ttl after the call; the store holds the last value alone. *)
Theorem Set_repeatedly k (l : list (any * time.Duration)) w :
  let w' := (run (sets k l) w).2 in
  timers w' = timers w ++ ((λ x, mkTimer (clock w + Z.max 0 x.2) k) <$> l) ∧
  storage (mc w')
  = match last l with
    | Some x => <[k := x.1]> (storage (mc w))
    | None => storage (mc w)
    end ∧
  clock w' = clock w.
Proof.
  revert w. induction l as [|[v ttl] l IH]; intros w; cbv zeta.
  - simpl. by rewrite app_nil_r.
  - change (sets k ((v, ttl) :: l)) with (Call (OpSet k v ttl) :: sets k l).
    rewrite run_cons, step_Call.
    change (exec (OpSet k v ttl) w).2 with (MemoryCache_Set k v ttl w).2.
    destruct (IH (MemoryCache_Set k v ttl w).2) as (Ht & Hs & Hc).
    destruct (Set_world k v ttl w) as (Hs0 & Ht0 & Hc0).
    rewrite Ht, Hs, Hc, Ht0, Hs0, Hc0. split_and!; [|..|done].
    + by rewrite <-app_assoc.
    + destruct l as [|y l]; [done|].
      change (last ((v, ttl) :: y :: l)) with (last (y :: l)).
      destruct (last (y :: l)) as [x|] eqn:Hl; [apply insert_insert_eq|].
      by apply last_None in Hl.
Qed.

(** *** GetOrSet, read back *)

(** X9. The value [GetOrSet] returns is the value stored under the key when
    it returns, in either branch: a [Get] right after it finds that value. *)
Theorem GetOrSet_then_Get k v ttl w :
  ((MemoryCache_GetOrSet k v ttl ;; MemoryCache_Get k) w).1
  = ((MemoryCache_GetOrSet k v ttl w).1.1, true).
Proof.
  go_unfold. destruct (storage (mc w) !! k) as [v0|] eqn:Hk; simpl.
  - by rewrite Hk.
  - by rewrite lookup_insert_eq.
Qed.

(** *** How long a key lives *)

(** A key with no timer pending is written and the program sleeps for less
    than the ttl: the value is there, and the one timer pending for the key
    is the write's. *)
Lemma fresh_write k v ttl d w :
  Forall (λ tm, key tm ≠ k) (timers w) → 0 ≤ d < ttl →
  let T := mkTimer (clock w + Z.max 0 ttl) k in
  let w1 := (Sleep d (MemoryCache_Set k v ttl w).2).2 in
  storage (mc w1) !! k = Some v ∧
  clock w1 = clock w + d ∧
  T ∈ timers w1 ∧
  Forall (λ tm, key tm = k → tm = T) (timers w1).
Proof.
  intros Hold Hd T w1.
  destruct (Set_world k v ttl w) as (Hs0 & Ht0 & Hc0).
  assert (HT : T ∈ timers (MemoryCache_Set k v ttl w).2).
  { rewrite Ht0. apply elem_of_app. right. by apply list_elem_of_singleton. }
  assert (Hnr : ¬ ran (clock (MemoryCache_Set k v ttl w).2 + d) T).
  { apply not_ran_after. rewrite Hc0. simpl. lia. }
  split_and!.
  - unfold w1. rewrite Sleep_untouched.
    + rewrite Hs0. apply lookup_insert_eq.
    + right. rewrite Ht0. apply Forall_app. split.
      * eapply Forall_impl; [exact Hold|]. intros tm Hne Hkey. by destruct Hne.
      * by apply Forall_singleton.
  - unfold w1. rewrite Sleep_clock, Hc0. lia.
  - apply Sleep_keeps; [done|by right].
  - apply Forall_forall. intros tm Hin%Sleep_pending Hk.
    rewrite Ht0 in Hin.
    apply elem_of_app in Hin as [Hin|Hin%list_elem_of_singleton]; [|done].
    rewrite Forall_forall in Hold. by destruct (Hold tm Hin).
Qed.

Lemma Refresh_present k v ttl w :
  storage (mc w) !! k = Some v →
  MemoryCache_Refresh k ttl w = (true, (MemoryCache_Set k v ttl w).2).
Proof. intros Hk. go_unfold. by rewrite Hk. Qed.

Lemma GetOrSet_present k v v' ttl w :
  storage (mc w) !! k = Some v →
  MemoryCache_GetOrSet k v' ttl w = ((v, true), w).
Proof. intros Hk. go_unfold. by rewrite Hk. Qed.

(** X2. [Refresh] cannot lengthen a key's life, it can shorten it.  A key
    with no timer pending is set for [ttl1] and, [d1] later and still
    there, refreshed for [ttl2]: [Refresh] returns [true].  After a sleep
    of [d2] more, the value is read back when the program wakes before
    both the first deadline and the refreshed one (or has not slept at
    all), and [(nil, false)] when it wakes after either of them. *)
Theorem Refresh_lifetime k v ttl1 ttl2 d1 d2 w :
  Forall (λ tm, key tm ≠ k) (timers w) → 0 ≤ d1 < ttl1 →
  let w1 := (Sleep d1 (MemoryCache_Set k v ttl1 w).2).2 in
  let r := (MemoryCache_Get k (Sleep d2 (MemoryCache_Refresh k ttl2 w1).2).2).1 in
  (MemoryCache_Refresh k ttl2 w1).1 = true ∧
  (d2 ≤ 0 ∨ (d1 + d2 < ttl1 ∧ d2 < ttl2) → r = (v, true)) ∧
  (0 < d2 → ttl1 < d1 + d2 ∨ ttl2 < d2 → r = (Nil, false)).
Proof.
  intros Hold Hd1 w1 r. unfold r. clear r.
  destruct (fresh_write k v ttl1 d1 w Hold Hd1) as (Hk & Hc & HT & Honly).
  fold w1 in Hk, Hc, HT, Honly.
  rewrite (Refresh_present k v ttl2 w1 Hk). split; [done|].
  change (true, (MemoryCache_Set k v ttl2 w1).2).2
    with (MemoryCache_Set k v ttl2 w1).2.
  destruct (Set_world k v ttl2 w1) as (Hs2 & Ht2 & Hc2).
  remember (MemoryCache_Set k v ttl2 w1).2 as w2 eqn:Hw2. clear Hw2.
  assert (Hk2 : storage (mc w2) !! k = Some v).
  { rewrite Hs2. apply lookup_insert_eq. }
  rewrite Get_lookup. split.
  - intros Hlive. rewrite Sleep_untouched; [by rewrite Hk2|].
    destruct Hlive as [Hd2|[H1 H2]]; [by left|right].
    rewrite Ht2, Hc2, Hc. apply Forall_app. split.
    + eapply Forall_impl; [exact Honly|]. intros tm Htm Hkey.
      rewrite (Htm Hkey). apply not_ran_after. simpl. lia.
    + apply Forall_singleton. intros _. apply not_ran_after. simpl. lia.
  - intros Hd2 Hpast.
    assert (Hgone : storage (mc (Sleep d2 w2).2) !! k = None).
    { destruct Hpast as [H1|H2].
      - apply (Sleep_fires d2 w2 (mkTimer (clock w + Z.max 0 ttl1) k) Hd2).
        + rewrite Ht2. apply elem_of_app. by left.
        + apply ran_before. rewrite Hc2, Hc. simpl. lia.
      - apply (Sleep_fires d2 w2 (mkTimer (clock w1 + Z.max 0 ttl2) k) Hd2).
        + rewrite Ht2. apply elem_of_app. right. by apply list_elem_of_singleton.
        + apply ran_before. rewrite Hc2. simpl. lia. }
    by rewrite Hgone.
Qed.

(** X3. [GetOrSet] on a present key arms nothing and lengthens nothing: the
    key, set for [ttl] and found [d1] later by a [GetOrSet] with any value
    and any ttl, is read back after a sleep of [d2] more when the program
    wakes before the first deadline (or has not slept at all), and is gone
    when it wakes after it. *)
Theorem GetOrSet_present_lifetime k v v' ttl ttl' d1 d2 w :
  Forall (λ tm, key tm ≠ k) (timers w) → 0 ≤ d1 < ttl →
  let w1 := (Sleep d1 (MemoryCache_Set k v ttl w).2).2 in
  let r := (MemoryCache_Get k
              (Sleep d2 (MemoryCache_GetOrSet k v' ttl' w1).2).2).1 in
  (MemoryCache_GetOrSet k v' ttl' w1).1 = (v, true) ∧
  (d2 ≤ 0 ∨ d1 + d2 < ttl → r = (v, true)) ∧
  (0 < d2 → ttl < d1 + d2 → r = (Nil, false)).
Proof.
  intros Hold Hd1 w1 r. unfold r. clear r.
  destruct (fresh_write k v ttl d1 w Hold Hd1) as (Hk & Hc & HT & Honly).
  fold w1 in Hk, Hc, HT, Honly.
  rewrite (GetOrSet_present k v v' ttl' w1 Hk). split; [done|].
  change ((v, true), w1).2 with w1.
  rewrite Get_lookup. split.
  - intros Hlive. rewrite Sleep_untouched; [by rewrite Hk|].
    destruct Hlive as [Hd2|Hlt]; [by left|right].
    eapply Forall_impl; [exact Honly|]. intros tm Htm Hkey.
    rewrite (Htm Hkey). apply not_ran_after. rewrite Hc. simpl. lia.
  - intros Hd2 Hpast. destruct (Sleep_fires d2 w1 _ Hd2 HT) as [Hgone _].
    { apply ran_before. rewrite Hc. simpl. lia. }
    simpl in Hgone. by rewrite Hgone.
Qed.

(** *** What every run keeps *)

Lemma exec_covered (op : Op any) w : covered w → covered (exec op w).2.
Proof.
  intros Hw k Hk.
  assert (Hold : is_Some (storage (mc w) !! k) →
                 ∃ tm, tm ∈ timers (exec op w).2 ∧ key tm = k).
  { intros Hs. destruct (Hw k Hs) as (tm & Hin & Hkey). exists tm.
    split; [|done]. destruct (exec_timers op w) as [l ->].
    apply elem_of_app. by left. }
  destruct op as [j v ttl|j v ttl|j|j|j ttl|]; go_unfold;
    try (destruct (storage (mc w) !! j) as [v0|] eqn:Hj; simpl in * );
    try (by apply Hold);
    try (destruct (decide (j = k)) as [->|Hne];
         [|rewrite ?lookup_insert_ne, ?lookup_delete_ne in Hk by done;
           by apply Hold]);
    try (eexists; split;
         [apply elem_of_app; right; by apply list_elem_of_singleton|done]);
    rewrite ?lookup_delete_eq, ?lookup_empty in Hk; by destruct Hk.
Qed.

Lemma Sleep_covered d w : covered w → covered (Sleep d w).2.
Proof.
  intros Hw k Hk.
  destruct (storage (mc w) !! k) as [v|] eqn:Hv.
  - destruct (Hw k) as (tm & Hin & Hkey); [by rewrite Hv|].
    exists tm. split; [|done].
    destruct (Sleep_cases d w tm Hin) as [Hkept|[Hgone _]]; [done|].
    rewrite Hkey in Hgone. rewrite Hgone in Hk. by destruct Hk.
  - rewrite (Sleep_absent d w k Hv) in Hk. by destruct Hk.
Qed.

Lemma run_covered (p : list (Step any)) w : covered w → covered (run p w).2.
Proof.
  revert w. induction p as [|[op|d] p IH]; intros w Hw; [done|..];
    rewrite run_cons; apply IH.
  - rewrite step_Call. by apply exec_covered.
  - by apply Sleep_covered.
Qed.

Lemma boot_covered : covered (any := any) boot.
Proof.
  intros k Hk. change (storage (mc boot)) with (∅ : gmap string any) in Hk.
  rewrite lookup_empty in Hk. by destruct Hk.
Qed.

(** X5. No entry is there for good: after any run of calls and sleeps on a
    new cache, every key in the store has a timer pending for it. *)
Theorem every_entry_has_timer (p : list (Step any)) k :
  is_Some (storage (mc (run p boot).2) !! k) →
  ∃ tm, tm ∈ timers (run p boot).2 ∧ key tm = k.
Proof. apply run_covered, boot_covered. Qed.

(** X6. After any run on a new cache, when the program wakes from a sleep
    after the deadline of every pending timer, the cache is empty and no
    timer is pending. *)
Theorem sleep_past_deadlines_empties (p : list (Step any)) d :
  let w := (run p boot).2 in
  0 < d → Forall (λ tm, when tm < clock w + d) (timers w) →
  storage (mc (Sleep d w).2) = ∅ ∧ timers (Sleep d w).2 = [].
Proof.
  intros w Hd Hall. rewrite Forall_forall in Hall. split.
  - apply map_empty. intros k.
    destruct (storage (mc w) !! k) as [v|] eqn:Hv; [|by apply Sleep_absent].
    destruct (run_covered p boot boot_covered k) as (tm & Hin & <-).
    { fold w. by rewrite Hv. }
    by apply Sleep_fires, ran_before, Hall.
  - apply elem_of_nil_inv. intros tm Hin.
    pose proof (Sleep_pending _ _ _ Hin) as Hbefore.
    destruct (Sleep_fires d w tm Hd Hbefore) as [_ Hout]; [|done].
    by apply ran_before, Hall.
Qed.

(** A value under a key after a step was there before, or the step is a
    write of that value under that key. *)
Lemma step_stores (s : Step any) w k v :
  storage (mc (step s w).2) !! k = Some v →
  storage (mc w) !! k = Some v ∨ written k v s.
Proof.
  intros Hk. destruct s as [op|d].
  - rewrite step_Call in Hk.
    destruct op as [j u ttl|j u ttl|j|j|j ttl|]; go_unfold;
      try (destruct (storage (mc w) !! j) as [v0|] eqn:Hj; simpl in * );
      try (by left);
      try (destruct (decide (j = k)) as [->|Hne];
           [|rewrite ?lookup_insert_ne, ?lookup_delete_ne in Hk by done;
             by left]);
      rewrite ?lookup_insert_eq, ?lookup_delete_eq, ?lookup_empty in Hk;
      try done; first [left; congruence|right; split; congruence].
  - left. change (step (Wait d) w) with (Sleep d w) in Hk.
    by apply Sleep_Some in Hk.
Qed.

(** X7. The cache makes up no value: whatever is stored under a key after
    a run on a new cache is the value of a [Set] or of a [GetOrSet] of that
    key in the run. *)
Theorem stored_values_were_written (p : list (Step any)) k v :
  storage (mc (run p boot).2) !! k = Some v → Exists (written k v) p.
Proof.
  assert (Hgen : ∀ w, storage (mc (run p w).2) !! k = Some v →
                      storage (mc w) !! k = Some v ∨ Exists (written k v) p).
  { induction p as [|s p IH]; intros w Hk; [by left|].
    rewrite run_cons in Hk. destruct (IH _ Hk) as [Hs|Hex].
    - destruct (step_stores s w k v Hs) as [Hw|Hw]; [by left|].
      right. by apply Exists_cons_hd.
    - right. by apply Exists_cons_tl. }
  intros Hk. destruct (Hgen boot Hk) as [Hb|Hex]; [|done].
  change (storage (mc boot)) with (∅ : gmap string any) in Hb.
  by rewrite lookup_empty in Hb.
Qed.

End Properties.

Section Scenarios.
Context `{Scheduler}.

(** ** The overwrite scenario *)

(** C2. On the code, the scenario reads [(nil, false)] at 220ms, not
    [(2, true)]: the timer of the first write runs at 200ms and deletes the
    second write, 150ms into its 200ms; the timer of the second write is
    still pending, due at 250ms. *)
Theorem overwrite_scenario_loses_second_write :
  (overwrite_scenario boot).1 = (VNil, false) ∧
  (overwrite_scenario boot).1 ≠ (VInt 2, true) ∧
  timers (overwrite_scenario boot).2 = [mkTimer (250 * time.Millisecond) "A"].
Proof. vm_compute. split_and!; done. Qed.

(** ** The demonstration run *)

(** X8. [main] finds the answer 42 it has just stored, and after its
    15 seconds of sleep finds no Spock, stored for 10: it takes the branch
    that stores Spock anew and prints the value it passed.  These six lines
    are its output, whatever the clock reads when it starts. *)
Theorem main_prints (w : World GoValue) :
  (main w).1
  = ["Setting up cache..."; "Searching for answers...";
     "The answer is, of course,  42 ."; "Searching for Spock...";
     "Spock not found, releasing Genesis device."; "Live long and prosper."].
Proof.
  unfold main, new_cache, Until, Now, Add, MemoryCache_Set, MemoryCache_Get,
    MemoryCache_Expire, Map_Store, Map_Load, Map_LoadAndDelete, AfterFunc,
    with_storage, NewMemoryCache, mbind, mret, Go_bind, Go_ret.
  cbn [mc storage timers clock fst snd].
  rewrite lookup_insert_ne by done. rewrite lookup_insert_eq.
  cbn [mc storage timers clock fst snd negb].
  rewrite lookup_insert_ne by done. rewrite lookup_insert_eq.
  cbn [mc storage timers clock fst snd negb].
  match goal with
  | |- context [Sleep ?d ?W] =>
      pose proof (Sleep_fires d W
        (mkTimer (clock w + Z.max 0 (clock w + 10 * time.Second - clock w)) "Spock"))
        as Hfire;
      destruct (Sleep d W) as [[] w']
  end.
  destruct Hfire as [Hgone _].
  { reflexivity. }
  { apply elem_of_app. right. by apply list_elem_of_singleton. }
  { apply ran_before. cbn [when clock]. unfold time.Second, time.Millisecond,
      time.Microsecond, time.Nanosecond. lia. }
  cbn [key snd] in Hgone.
  unfold MemoryCache_GetOrSet, Map_LoadOrStore, AfterFunc, mbind, mret,
    Go_bind, Go_ret.
  rewrite Hgone. reflexivity.
Qed.

End Scenarios.

(** ** Concrete runs *)

#[local] Existing Instance sleeper_first.

Lemma GetOrSet_twice_witness :
  let w1 := (MemoryCache_GetOrSet "Spock" (VString "Live long and prosper.")
               (10 * time.Second) boot).2 in
  (MemoryCache_GetOrSet "Spock" (VString "Live long and prosper.")
     (10 * time.Second) boot).1 = (VString "Live long and prosper.", false) ∧
  MemoryCache_GetOrSet "Spock" (VInt 7) (5 * time.Minute) w1
  = ((VString "Live long and prosper.", true), w1).
Proof.
  pose proof (GetOrSet_twice "Spock" (VString "Live long and prosper.") (VInt 7)
                (10 * time.Second) (5 * time.Minute) boot) as Hw.
  destruct Hw as (Hfst & _ & _ & Hsnd & _); [reflexivity|].
  split; [exact Hfst|exact Hsnd].
Defined.

Lemma Expire_spec_witness :
  let w := (MemoryCache_Set "UltimateAnswer" (VInt 42) (5 * time.Minute) boot).2 in
  (MemoryCache_Expire "UltimateAnswer" w).1 = (VInt 42, true) ∧
  (MemoryCache_Get "UltimateAnswer" (MemoryCache_Expire "UltimateAnswer" w).2).1
  = (VNil, false) ∧
  MemoryCache_Expire "Spock" w = ((VNil, false), w).
Proof.
  intros w.
  destruct (Expire_spec "UltimateAnswer" w) as [Hpresent _].
  destruct (Expire_spec "Spock" w) as [_ Habsent].
  destruct (Hpresent (VInt 42)) as (Hr & _ & Hg); [reflexivity|].
  split_and!; [exact Hr|exact Hg|apply Habsent; reflexivity].
Defined.

Lemma Refresh_spec_witness :
  let w := (MemoryCache_Set "UltimateAnswer" (VInt 42) (5 * time.Minute) boot).2 in
  MemoryCache_Refresh "Spock" (10 * time.Second) w = (false, w) ∧
  (MemoryCache_Refresh "UltimateAnswer" (10 * time.Second) w).1 = true ∧
  timers (MemoryCache_Refresh "UltimateAnswer" (10 * time.Second) w).2
  = [mkTimer (5 * time.Minute) "UltimateAnswer";
     mkTimer (10 * time.Second) "UltimateAnswer"].
Proof.
  intros w.
  destruct (Refresh_spec "Spock" (10 * time.Second) w) as [Habsent _].
  destruct (Refresh_spec "UltimateAnswer" (10 * time.Second) w) as [_ Hpresent].
  destruct (Hpresent (VInt 42)) as (Hr & _ & Ht); [reflexivity|].
  split_and!; [apply Habsent; reflexivity|by rewrite Hr|exact Ht].
Defined.

Lemma per_key_frame_witness :
  let w := (MemoryCache_Set "Spock" (VString "Live long and prosper.")
              (10 * time.Second) boot).2 in
  storage (mc (exec (OpExpire "UltimateAnswer") w).2) !! "Spock"
  = Some (VString "Live long and prosper.") ∧
  storage (mc (exec (OpSet "UltimateAnswer" (VInt 42) (5 * time.Minute)) w).2) !! "Spock"
  = Some (VString "Live long and prosper.").
Proof.
  intros w. destruct (per_key_frame (any := GoValue)) as [Hframe _].
  split.
  - destruct (Hframe (OpExpire "UltimateAnswer") "UltimateAnswer" "Spock" w)
      as [-> _]; [reflexivity|discriminate|reflexivity].
  - destruct (Hframe (OpSet "UltimateAnswer" (VInt 42) (5 * time.Minute))
                "UltimateAnswer" "Spock" w)
      as [-> _]; [reflexivity|discriminate|reflexivity].
Defined.

Lemma Get_pure_read_witness :
  (MemoryCache_Get "A"
     (run [Call (OpSet "B" (VInt 1) (100 * time.Millisecond));
           Wait (20 * time.Millisecond);
           Call (OpRefresh "A" (100 * time.Millisecond));
           Call (OpExpire "A")] boot).2).1 = (VNil, false) ∧
  (MemoryCache_Get "A"
     (Sleep (150 * time.Millisecond)
        (MemoryCache_Set "A" (VInt 1) (100 * time.Millisecond) boot).2).2).1
  = (VNil, false).
Proof.
  destruct (Get_pure_read (any := GoValue)) as (_ & Hnever & Hexpired).
  split.
  - apply Hnever. repeat constructor; intros Hw; vm_compute in Hw;
    first [discriminate|contradiction].
  - apply (Hexpired "A" (VInt 1) (100 * time.Millisecond)
             (150 * time.Millisecond) boot []).
    + constructor.
    + reflexivity.
    + reflexivity.
Defined.


(** ** More concrete runs *)

Lemma Set_lives_until_ttl_witness :
  (MemoryCache_Get "A"
     (Sleep (99 * time.Millisecond)
        (MemoryCache_Set "A" (VInt 1) (100 * time.Millisecond) boot).2).2).1
  = (VInt 1, true).
Proof.
  apply (Set_lives_until_ttl "A" (VInt 1) (100 * time.Millisecond)
           (99 * time.Millisecond) boot).
  - constructor.
  - reflexivity.
  - reflexivity.
Defined.

Lemma Set_Sleep_Get_witness :
  (MemoryCache_Get "A"
     (Sleep (150 * time.Millisecond)
        (MemoryCache_Set "A" (VInt 1) (100 * time.Millisecond) boot).2).2).1
  = (VNil, false).
Proof.
  rewrite (Set_Sleep_Get "A" (VInt 1) (100 * time.Millisecond)
             (150 * time.Millisecond) boot); reflexivity.
Defined.

Lemma Refresh_lifetime_witness :
  let w1 := (Sleep (50 * time.Millisecond)
               (MemoryCache_Set "A" (VInt 1) (100 * time.Millisecond) boot).2).2 in
  (MemoryCache_Refresh "A" (5 * time.Minute) w1).1 = true ∧
  (MemoryCache_Get "A"
     (Sleep (60 * time.Millisecond)
        (MemoryCache_Refresh "A" (5 * time.Minute) w1).2).2).1 = (VNil, false).
Proof.
  destruct (Refresh_lifetime "A" (VInt 1) (100 * time.Millisecond) (5 * time.Minute)
              (50 * time.Millisecond) (60 * time.Millisecond) boot)
    as (Hr & _ & Hgone).
  - constructor.
  - split; [discriminate|reflexivity].
  - split; [exact Hr|]. apply Hgone; [reflexivity|left; reflexivity].
Defined.

Lemma GetOrSet_present_lifetime_witness :
  let w1 := (Sleep (50 * time.Millisecond)
               (MemoryCache_Set "A" (VInt 1) (100 * time.Millisecond) boot).2).2 in
  (MemoryCache_GetOrSet "A" (VInt 2) (5 * time.Minute) w1).1 = (VInt 1, true) ∧
  (MemoryCache_Get "A"
     (Sleep (60 * time.Millisecond)
        (MemoryCache_GetOrSet "A" (VInt 2) (5 * time.Minute) w1).2).2).1
  = (VNil, false).
Proof.
  destruct (GetOrSet_present_lifetime "A" (VInt 1) (VInt 2) (100 * time.Millisecond)
              (5 * time.Minute) (50 * time.Millisecond) (60 * time.Millisecond) boot)
    as (Hr & _ & Hgone).
  - constructor.
  - split; [discriminate|reflexivity].
  - split; [exact Hr|]. apply Hgone; reflexivity.
Defined.

Lemma every_entry_has_timer_witness :
  ∃ tm, tm ∈ timers (run [Call (OpSet "A" (VInt 1) (100 * time.Millisecond));
                          Wait (50 * time.Millisecond);
                          Call (OpRefresh "A" (10 * time.Second))] boot).2
        ∧ key tm = "A"%string.
Proof.
  apply (every_entry_has_timer
           [Call (OpSet "A" (VInt 1) (100 * time.Millisecond));
            Wait (50 * time.Millisecond);
            Call (OpRefresh "A" (10 * time.Second))] "A").
  exists (VInt 1). vm_compute. reflexivity.
Defined.

Lemma sleep_past_deadlines_empties_witness :
  let w := (run [Call (OpSet "A" (VInt 1) (100 * time.Millisecond));
                 Wait (20 * time.Millisecond);
                 Call (OpGetOrSet "B" (VInt 2) (200 * time.Millisecond))] boot).2 in
  storage (mc (Sleep time.Second w).2) = ∅ ∧ timers (Sleep time.Second w).2 = [].
Proof.
  apply (sleep_past_deadlines_empties
           [Call (OpSet "A" (VInt 1) (100 * time.Millisecond));
            Wait (20 * time.Millisecond);
            Call (OpGetOrSet "B" (VInt 2) (200 * time.Millisecond))] time.Second).
  - reflexivity.
  - apply Forall_forall. intros tm Hin. vm_compute in Hin.
    apply elem_of_cons in Hin as [->|Hin]; [reflexivity|].
    apply elem_of_cons in Hin as [->|Hin]; [reflexivity|].
    by apply not_elem_of_nil in Hin.
Defined.

Lemma stored_values_were_written_witness :
  Exists (written "A" (VInt 1))
    [Call (OpSet "A" (VInt 1) (100 * time.Millisecond));
     Call (OpRefresh "A" (10 * time.Second));
     Wait (50 * time.Millisecond)].
Proof.
  apply (stored_values_were_written
           [Call (OpSet "A" (VInt 1) (100 * time.Millisecond));
            Call (OpRefresh "A" (10 * time.Second));
            Wait (50 * time.Millisecond)] "A" (VInt 1)).
  vm_compute. reflexivity.
Defined.
